(** * example-project/src/main.cpp

    A shallow embedding of the one translation unit of the example project:

<<
    int main() {
        std::vector<int> v;
        for (int i = 0; i < 3; i++) {
            v.push_back(i);
        }
        for (auto i : v) {
            std::cout << i << std::endl;
        }
        return 0;
    }
>>

    [int] is a 32-bit signed integer carried as a [Z]; [std::vector<int>] is
    a [list Z] that grows at its end; the two standard streams are event
    logs threaded, together with the process's arguments and environment,
    through a state-and-error monad; both loops run through one loop
    combinator whose fuel counts iterations. *)

From Stdlib Require Import ZArith String Ascii DecimalString Lia.
From Stdlib Require DecimalPos DecimalZ.
From stdpp Require Import base list.

Local Open Scope Z_scope.

(* ===================================================================== *)
(** ** Machine integers                                                   *)
(* ===================================================================== *)

Definition INT_MAX : Z := 2147483647.
(** What can go wrong in the language itself: arithmetic on [int] that
    leaves the type, and a dereference outside the vector's storage. *)
Inductive fault : Type :=
  | SignedOverflow
  | OutOfRange.

(* ===================================================================== *)
(** ** Output streams                                                     *)
(* ===================================================================== *)

(** What reaches a stream, in order: characters handed to it, and
    requests to push its buffer to the destination. *)
Inductive event : Type :=
  | Put (s : string)
  | Flush.

(** [writable] is the destination accepting data (a property of the
    environment), [badbit] the stream's own error state. *)
Record ostream : Type := mk_ostream {
  writable : bool;
  badbit : bool;
  log : list event
}.

(** Besides the two streams, the state a program runs in holds what the
    process was started with: the argument vector and the environment,
    where any code of the program could read them. *)
Record World : Type := mk_world {
  cout : ostream;
  cerr : ostream;
  w_argv : list string;
  w_environ : list (string * string)
}.

(** Characters reach the log only through a stream in good state whose
    destination takes them; a refused write raises [badbit], and a stream
    with [badbit] ignores further output. *)
Definition os_emit (os : ostream) (e : event) : ostream :=
  if badbit os then os
  else if writable os then mk_ostream (writable os) (badbit os) (log os ++ [e])
  else mk_ostream (writable os) true (log os).

Definition os_write (os : ostream) (s : string) : ostream := os_emit os (Put s).
Definition os_flush (os : ostream) : ostream := os_emit os Flush.

(** Decimal text of an [int], as [operator<<] formats it under the default
    flags: a minus sign for negatives, no padding, no leading zeros. *)
Definition decimal (n : Z) : string := NilZero.string_of_int (Z.to_int n).

Definition newline : string := String (ascii_of_nat 10) EmptyString.

(** [os << n] *)
Definition insert_int (os : ostream) (n : Z) : ostream := os_write os (decimal n).

(** [os << std::endl]: the newline character, then a flush. *)
Definition endl (os : ostream) : ostream := os_flush (os_write os newline).

(** The characters in a log, and those still waiting for a flush. *)
Fixpoint bytes (l : list event) : string :=
  match l with
  | [] => EmptyString
  | Put s :: l' => (s ++ bytes l')%string
  | Flush :: l' => bytes l'
  end.

Fixpoint pending_from (acc : string) (l : list event) : string :=
  match l with
  | [] => acc
  | Put s :: l' => pending_from (acc ++ s)%string l'
  | Flush :: l' => pending_from EmptyString l'
  end.

Definition pending (l : list event) : string := pending_from EmptyString l.

(* ===================================================================== *)
(** ** The monad the statements of [main] run in                          *)
(* ===================================================================== *)

Inductive outcome (A : Type) : Type :=
  | Ret (a : A)
  | Undefined (f : fault)
  | Timeout.

Arguments Ret {A} a.
Arguments Undefined {A} f.
Arguments Timeout {A}.

Definition M (A : Type) : Type := World -> outcome (A * World).

Definition ret {A} (a : A) : M A := fun w => Ret (a, w).

Definition bind {A B} (m : M A) (k : A -> M B) : M B :=
  fun w =>
    match m w with
    | Ret (a, w') => k a w'
    | Undefined f => Undefined f
    | Timeout => Timeout
    end.

Definition undefined {A} (f : fault) : M A := fun _ => Undefined f.

Declare Scope prog_scope.
Delimit Scope prog_scope with prog.
Notation "x <- m ;; k" := (bind m (fun x => k))
  (at level 100, m at next level, right associativity) : prog_scope.
Notation "m ;; k" := (bind m (fun _ => k))
  (at level 100, right associativity) : prog_scope.
Local Open Scope prog_scope.

(** [std::cout << n] and [std::cout << std::endl] as statements. *)
Definition cout_int (n : Z) : M unit :=
  fun w => Ret (tt, mk_world (insert_int (cout w) n) (cerr w)
                             (w_argv w) (w_environ w)).

Definition cout_endl : M unit :=
  fun w => Ret (tt, mk_world (endl (cout w)) (cerr w)
                             (w_argv w) (w_environ w)).

(** [i++] on an [int]: the old value is the expression's value (unused in
    the source), the new value is what the variable holds afterwards.
    Leaving the range of [int] is undefined behaviour. *)
Definition post_incr (i : Z) : M Z :=
  if i <? INT_MAX then ret (i + 1) else undefined SignedOverflow.

(** A loop [while (cond) body] over the loop's variables.  The condition is
    tested first; each run of the body costs one unit of fuel. *)
Fixpoint loop {S : Type} (fuel : nat) (cond : S -> bool) (body : S -> M S)
    (s : S) : M S :=
  fun w =>
    if cond s then
      match fuel with
      | O => Timeout
      | Datatypes.S fuel' =>
          match body s w with
          | Ret (s', w') => loop fuel' cond body s' w'
          | Undefined f => Undefined f
          | Timeout => Timeout
          end
      end
    else Ret (s, w).

(** The states a loop is in between iterations, from a starting state. *)
Inductive boundary {S : Type} (cond : S -> bool) (body : S -> M S)
    (start : S * World) : S * World -> Prop :=
  | boundary_start : boundary cond body start start
  | boundary_next s w s' w' :
      boundary cond body start (s, w) ->
      cond s = true ->
      body s w = Ret (s', w') ->
      boundary cond body start (s', w').

(* ===================================================================== *)
(** ** std::vector<int>                                                   *)
(* ===================================================================== *)

Abbreviation vector_int := (list Z).

Definition push_back (v : vector_int) (x : Z) : vector_int := v ++ [x].

(** Iterators are positions; [v.begin()] is the first one and [v.end()]
    the one past the last. *)
Definition vbegin (v : vector_int) : nat := 0%nat.
Definition vend (v : vector_int) : nat := length v.

(** [*it]: reading a position that holds no element is undefined. *)
Definition deref (v : vector_int) (it : nat) : M Z :=
  match v !! it with
  | Some x => ret x
  | None => undefined OutOfRange
  end.

(* ===================================================================== *)
(** ** main                                                               *)
(* ===================================================================== *)

(** Lines 5-8: the variables of the first loop. *)
Record build_locals : Type := mk_build {
  b_i : Z;
  b_v : vector_int
}.

Definition build_init : build_locals := mk_build 0 [].

Definition build_cond (s : build_locals) : bool := b_i s <? 3.

(** [v.push_back(i);] then the loop's [i++]. *)
Definition build_body (s : build_locals) : M build_locals :=
  let v' := push_back (b_v s) (b_i s) in
  i' <- post_incr (b_i s) ;;
  ret (mk_build i' v').

Definition build (fuel : nat) : M build_locals :=
  loop fuel build_cond build_body build_init.

(** Lines 9-11: [for (auto i : v)] is
    [for (auto it = v.begin(), e = v.end(); it != e; ++it) { auto i = *it; ... }]. *)
Definition print_cond (v : vector_int) (it : nat) : bool :=
  negb (it =? vend v)%nat.

Definition print_body (v : vector_int) (it : nat) : M nat :=
  i <- deref v it ;;
  cout_int i ;;
  cout_endl ;;
  ret (Datatypes.S it).

Definition print (fuel : nat) (v : vector_int) : M nat :=
  loop fuel (print_cond v) (print_body v) (vbegin v).

Definition main (fuel : nat) : M Z :=
  s <- build fuel ;;
  print fuel (b_v s) ;;
  ret 0.

(** A process: what the operating system hands to the program.  The
    start-up code stores the argument vector and the environment where the
    program can reach them and calls [main], which declares no parameters;
    the value [main] returns is the exit status. *)
Record process : Type := mk_process {
  argv : list string;
  environ : list (string * string);
  streams : World
}.

Definition boot (p : process) : World :=
  mk_world (cout (streams p)) (cerr (streams p)) (argv p) (environ p).

Definition run (fuel : nat) (p : process) : outcome (Z * World) :=
  main fuel (boot p).

(* ===================================================================== *)
(** ** Vocabulary of the statements                                       *)
(* ===================================================================== *)

(** Normal conditions: standard output takes data and is in good state. *)
Definition normal (w : World) : Prop :=
  writable (cout w) = true /\ badbit (cout w) = false.

(** The world after [evs] reached standard output, all else as it was. *)
Definition append_cout (w : World) (evs : list event) : World :=
  mk_world
    (mk_ostream (writable (cout w)) (badbit (cout w)) (log (cout w) ++ evs))
    (cerr w) (w_argv w) (w_environ w).

(** What printing one element sends to the stream. *)
Definition line_events (x : Z) : list event := [Put (decimal x); Put newline; Flush].

(** The text of a vector printed one element per line. *)
Fixpoint text_of (v : vector_int) : string :=
  match v with
  | [] => EmptyString
  | x :: v' => (decimal x ++ newline ++ text_of v')%string
  end.

Definition fresh_world : World :=
  mk_world (mk_ostream true false []) (mk_ostream true false []) [] [].

(** The events one run of [main] sends to standard output. *)
Definition main_trace : list event :=
  [Put "0"%string; Put newline; Flush;
   Put "1"%string; Put newline; Flush;
   Put "2"%string; Put newline; Flush].

Definition main_text : string :=
  ("0" ++ newline ++ "1" ++ newline ++ "2" ++ newline)%string.

(** What holds of the first loop's variables between iterations. *)
Definition build_invariant (s : build_locals) : Prop :=
  0 <= b_i s <= 3
  /\ length (b_v s) = Z.to_nat (b_i s)
  /\ forall j : nat, (j < Z.to_nat (b_i s))%nat -> b_v s !! j = Some (Z.of_nat j).

(** Two small worlds and processes for the examples below. *)
Definition used_world : World :=
  mk_world (mk_ostream true false [Put "earlier"%string])
           (mk_ostream true false [Put "warning"%string; Flush])
           ["prog"%string] [].

(** Standard output whose destination takes no data. *)
Definition closed_world : World :=
  mk_world (mk_ostream false false []) (mk_ostream true false []) [] [].

(** The first loop's variables after two iterations. *)
Definition two_built : build_locals := mk_build 2 [0; 1].

Definition bare_process : process := mk_process [] [] fresh_world.

Definition busy_process : process :=
  mk_process ["prog"%string; "--verbose"%string; "7"%string]
             [("HOME"%string, "/root"%string)] fresh_world.

(** The same streams in a process started with other arguments and another
    environment. *)
Definition restart (w : World) (av : list string)
    (ev : list (string * string)) : World :=
  mk_world (cout w) (cerr w) av ev.

Definition omap {A B : Type} (f : A -> B) (o : outcome A) : outcome B :=
  match o with
  | Ret a => Ret (f a)
  | Undefined f' => Undefined f'
  | Timeout => Timeout
  end.

(** What the caller of a run can see: the status and the two streams. *)
Definition observable (o : outcome (Z * World)) : outcome (Z * (ostream * ostream)) :=
  omap (fun x => (fst x, (cout (snd x), cerr (snd x)))) o.

(** A computation that reads neither arguments nor environment: started
    with other ones it does the same to the streams, returns the same
    value, and hands on the ones it was started with. *)
Definition env_blind {A : Type} (m : M A) : Prop :=
  forall w av ev,
    m (restart w av ev) = omap (fun x => (fst x, restart (snd x) av ev)) (m w).

(** Standard output that takes nothing: its destination refuses data, or
    the stream is already in its error state. *)
Definition refusing (w : World) : Prop :=
  writable (cout w) = false \/ badbit (cout w) = true.

(** A text with no line break in it. *)
Fixpoint no_newline (s : string) : bool :=
  match s with
  | EmptyString => true
  | String c s' => negb (Ascii.eqb c (ascii_of_nat 10)) && no_newline s'
  end.

(** A vector with a negative element and one of several digits. *)
Definition sample_vector : vector_int := [-5; 40; 7].

(* ===================================================================== *)
(** ** Sample runs                                                        *)
(* ===================================================================== *)

Example decimal_samples :
  decimal 0 = "0"%string /\ decimal 2 = "2"%string /\ decimal (-17) = "-17"%string.
Proof. repeat split; reflexivity. Qed.

Example main_fresh :
  main 3 fresh_world
  = Ret (0, append_cout fresh_world (line_events 0 ++ line_events 1 ++ line_events 2)).
Proof. reflexivity. Qed.

(** On a destination that refuses data the first write raises [badbit],
    nothing reaches the log, and the procedure still runs to its return. *)
Example main_closed :
  main 3 closed_world
  = Ret (0, mk_world (mk_ostream false true []) (mk_ostream true false [])
              [] []).
Proof. reflexivity. Qed.

Example main_short_fuel : main 2 fresh_world = Timeout.
Proof. reflexivity. Qed.

(* ===================================================================== *)
(** ** Streams: basic facts                                               *)
(* ===================================================================== *)

Lemma os_emit_good os e :
  writable os = true -> badbit os = false ->
  os_emit os e = mk_ostream true false (log os ++ [e]).
Proof. intros Hw Hb. unfold os_emit. rewrite Hb, Hw. reflexivity. Qed.

Lemma bytes_app l1 l2 : bytes (l1 ++ l2) = (bytes l1 ++ bytes l2)%string.
Proof.
  induction l1 as [|[s|] l1 IH]; simpl; try assumption; try reflexivity.
  rewrite IH. clear IH. induction s as [|c s IHs]; simpl; congruence.
Qed.

Lemma pending_from_app acc l1 l2 :
  pending_from acc (l1 ++ l2) = pending_from (pending_from acc l1) l2.
Proof.
  revert acc. induction l1 as [|[s|] l1 IH]; intros acc; simpl; auto.
Qed.

Lemma pending_snoc_flush l : pending (l ++ [Flush]) = EmptyString.
Proof. unfold pending. rewrite pending_from_app. reflexivity. Qed.

Lemma bytes_lines v : bytes (flat_map line_events v) = text_of v.
Proof.
  induction v as [|x v IH]; [reflexivity|].
  simpl. rewrite IH. reflexivity.
Qed.

Lemma append_cout_nil w : append_cout w [] = w.
Proof.
  destruct w as [[wr bad lg] ce av ev]. unfold append_cout. simpl.
  rewrite app_nil_r. reflexivity.
Qed.

Lemma append_cout_app w l1 l2 :
  append_cout (append_cout w l1) l2 = append_cout w (l1 ++ l2).
Proof. unfold append_cout. simpl. rewrite app_assoc. reflexivity. Qed.

Lemma append_cout_normal w l : normal w -> normal (append_cout w l).
Proof. intros H. exact H. Qed.

(* ===================================================================== *)
(** ** The loop combinator                                                *)
(* ===================================================================== *)

Section Loop.
Context {S : Type} (cond : S -> bool) (body : S -> M S).

Lemma loop_done fuel s w : cond s = false -> loop fuel cond body s w = Ret (s, w).
Proof. intros H. destruct fuel; simpl; rewrite H; reflexivity. Qed.

Lemma loop_iter fuel s w s' w' :
  cond s = true -> body s w = Ret (s', w') ->
  loop (Datatypes.S fuel) cond body s w = loop fuel cond body s' w'.
Proof. intros Hc Hb. simpl. rewrite Hc, Hb. reflexivity. Qed.

Lemma boundary_trans x y z :
  boundary cond body x y -> boundary cond body y z -> boundary cond body x z.
Proof.
  intros Hxy Hyz. induction Hyz as [|s w s' w' _ IH Hc Hb].
  - exact Hxy.
  - eapply boundary_next; eauto.
Qed.

(** A loop that returns does so at one of its boundaries, the first at
    which the condition fails. *)
Lemma loop_boundary fuel : forall s w s' w',
  loop fuel cond body s w = Ret (s', w') ->
  boundary cond body (s, w) (s', w') /\ cond s' = false.
Proof.
  induction fuel as [|fuel IH]; intros s w s' w'; simpl;
    destruct (cond s) eqn:Hc; try discriminate.
  - intros H. simplify_eq. split; [apply boundary_start | exact Hc].
  - destruct (body s w) as [[s1 w1]| |] eqn:Hb; try discriminate.
    intros Hl. destruct (IH _ _ _ _ Hl) as [Hbd Hf]. split; [|exact Hf].
    eapply boundary_trans; [|exact Hbd].
    eapply boundary_next; [apply boundary_start | exact Hc | exact Hb].
  - intros H. simplify_eq. split; [apply boundary_start | exact Hc].
Qed.

(** More fuel never changes a result. *)
Lemma loop_fuel_mono fuel : forall fuel' s w r,
  (fuel <= fuel')%nat ->
  loop fuel cond body s w = Ret r -> loop fuel' cond body s w = Ret r.
Proof.
  induction fuel as [|fuel IH]; intros fuel' s w r Hle; simpl;
    destruct (cond s) eqn:Hc; try discriminate.
  - intros <-. apply loop_done, Hc.
  - destruct fuel' as [|fuel']; [lia|]. simpl. rewrite Hc.
    destruct (body s w) as [[s1 w1]| |]; try discriminate.
    apply IH. lia.
  - intros <-. apply loop_done, Hc.
Qed.
End Loop.

(* ===================================================================== *)
(** ** Build phase                                                        *)
(* ===================================================================== *)

Lemma build_body_step s w :
  b_i s < INT_MAX ->
  build_body s w = Ret (mk_build (b_i s + 1) (push_back (b_v s) (b_i s)), w).
Proof.
  intros Hlt. unfold build_body, bind, post_incr.
  apply Z.ltb_lt in Hlt. rewrite Hlt. reflexivity.
Qed.

Lemma build_run fuel w :
  (3 <= fuel)%nat -> build fuel w = Ret (mk_build 3 [0; 1; 2], w).
Proof.
  intros Hf. destruct fuel as [|[|[|fuel]]]; try lia.
  unfold build. destruct fuel; reflexivity.
Qed.

Lemma build_invariant_init : build_invariant build_init.
Proof.
  unfold build_invariant, build_init; simpl. repeat split; lia.
Qed.

Lemma build_invariant_step s w s' w' :
  build_invariant s -> build_cond s = true -> build_body s w = Ret (s', w') ->
  build_invariant s' /\ b_i s' = b_i s + 1 /\ w' = w.
Proof.
  intros (Hr & Hlen & Hel) Hc Hb. unfold build_cond in Hc.
  apply Z.ltb_lt in Hc.
  rewrite build_body_step in Hb by (unfold INT_MAX; lia).
  simplify_eq. simpl. split; [|split; reflexivity].
  unfold build_invariant, push_back; simpl. repeat split; try lia.
  - rewrite length_app, Hlen. simpl. lia.
  - intros j Hj.
    destruct (decide (j = Z.to_nat (b_i s))) as [->|Hne].
    + rewrite lookup_app_r by lia. rewrite Hlen, Nat.sub_diag. simpl.
      f_equal. lia.
    + rewrite lookup_app_l by lia. apply Hel. lia.
Qed.

Lemma build_boundary_invariant w s w' :
  boundary build_cond build_body (build_init, w) (s, w') ->
  build_invariant s /\ w' = w.
Proof.
  intros Hbd. remember (build_init, w) as x eqn:Hx.
  remember (s, w') as y eqn:Hy. revert s w' Hy.
  induction Hbd as [|s0 w0 s1 w1 _ IH Hc Hb]; intros s w' Hy; subst.
  - simplify_eq. split; [apply build_invariant_init | reflexivity].
  - simplify_eq. destruct (IH _ _ eq_refl) as [Hinv ->].
    destruct (build_invariant_step _ _ _ _ Hinv Hc Hb) as (Hinv' & _ & ->).
    split; [exact Hinv' | reflexivity].
Qed.

(* ===================================================================== *)
(** ** Print phase                                                        *)
(* ===================================================================== *)

Lemma print_cond_true v it : print_cond v it = true <-> it <> length v.
Proof.
  unfold print_cond, vend. rewrite negb_true_iff. apply Nat.eqb_neq.
Qed.

Lemma print_cond_false v it : print_cond v it = false <-> it = length v.
Proof.
  unfold print_cond, vend. rewrite negb_false_iff. apply Nat.eqb_eq.
Qed.

Lemma print_body_at (v : vector_int) it x w :
  v !! it = Some x ->
  print_body v it w
  = Ret (Datatypes.S it,
         mk_world (endl (insert_int (cout w) x)) (cerr w)
           (w_argv w) (w_environ w)).
Proof.
  intros Hx. unfold print_body, bind, deref. rewrite Hx. reflexivity.
Qed.

Lemma print_body_normal (v : vector_int) it x w :
  normal w -> v !! it = Some x ->
  print_body v it w = Ret (Datatypes.S it, append_cout w (line_events x)).
Proof.
  intros [Hw Hb] Hx. rewrite (print_body_at _ _ _ _ Hx). do 2 f_equal.
  unfold append_cout, endl, insert_int, os_write, os_flush. f_equal.
  rewrite (os_emit_good (cout w)) by assumption.
  rewrite os_emit_good by reflexivity. rewrite os_emit_good by reflexivity.
  simpl. rewrite Hw, Hb, <- !app_assoc. reflexivity.
Qed.

(** From any position inside the vector the loop prints the rest of it and
    stops at the end position. *)
Lemma print_loop_from (v : vector_int) : forall n fuel it w,
  normal w -> (it + n)%nat = length v -> (n <= fuel)%nat ->
  loop fuel (print_cond v) (print_body v) it w
  = Ret (length v, append_cout w (flat_map line_events (drop it v))).
Proof.
  induction n as [|n IH]; intros fuel it w Hn Hit Hf.
  - rewrite loop_done by (apply print_cond_false; lia).
    rewrite drop_ge by lia. simpl. rewrite append_cout_nil.
    do 2 f_equal. lia.
  - destruct fuel as [|fuel]; [lia|].
    destruct (lookup_lt_is_Some_2 v it) as [x Hx]; [lia|].
    rewrite (loop_iter _ _ fuel it w (Datatypes.S it)
               (append_cout w (line_events x))).
    + rewrite IH by (try apply append_cout_normal; try assumption; lia).
      rewrite append_cout_app. do 3 f_equal.
      rewrite (drop_S _ _ _ Hx). reflexivity.
    + apply print_cond_true. lia.
    + apply print_body_normal; assumption.
Qed.

(** Whatever the state of the streams, the loop runs to the end position. *)
Lemma print_loop_total (v : vector_int) : forall n fuel it w,
  (it + n)%nat = length v -> (n <= fuel)%nat ->
  exists w', loop fuel (print_cond v) (print_body v) it w = Ret (length v, w')
             /\ cerr w' = cerr w.
Proof.
  induction n as [|n IH]; intros fuel it w Hit Hf.
  - exists w. rewrite loop_done by (apply print_cond_false; lia).
    split; [do 2 f_equal; lia | reflexivity].
  - destruct fuel as [|fuel]; [lia|].
    destruct (lookup_lt_is_Some_2 v it) as [x Hx]; [lia|].
    erewrite loop_iter;
      [| apply print_cond_true; lia | apply (print_body_at _ _ _ _ Hx)].
    destruct (IH fuel (Datatypes.S it)
                (mk_world (endl (insert_int (cout w) x)) (cerr w)
                   (w_argv w) (w_environ w)))
      as (w' & Hl & Hc); [lia | lia |].
    exists w'. split; [exact Hl | exact Hc].
Qed.

(** What holds of the second loop's iterator between iterations. *)
Lemma print_boundary_invariant (v : vector_int) w it w' :
  boundary (print_cond v) (print_body v) (vbegin v, w) (it, w') ->
  (it <= length v)%nat
  /\ cerr w' = cerr w
  /\ (normal w -> w' = append_cout w (flat_map line_events (take it v))).
Proof.
  intros Hbd. remember (vbegin v, w) as x eqn:Hx.
  remember (it, w') as y eqn:Hy. revert it w' Hy.
  induction Hbd as [|it0 w0 it1 w1 _ IH Hc Hb]; intros it w' Hy; subst.
  - simplify_eq. unfold vbegin. simpl. repeat split; try lia.
    intros _. symmetry. apply append_cout_nil.
  - simplify_eq. destruct (IH _ _ eq_refl) as (Hle & Hce & Hout).
    apply print_cond_true in Hc.
    destruct (lookup_lt_is_Some_2 v it0) as [x Hx]; [lia|].
    pose proof (lookup_lt_Some _ _ _ Hx) as Hlt.
    split; [|split].
    + rewrite (print_body_at _ _ _ _ Hx) in Hb. simplify_eq. lia.
    + rewrite (print_body_at _ _ _ _ Hx) in Hb. simplify_eq. simpl. exact Hce.
    + intros Hn. specialize (Hout Hn). subst w0.
      rewrite (print_body_normal v it0 x) in Hb
        by (try apply append_cout_normal; assumption).
      simplify_eq. rewrite append_cout_app. f_equal.
      rewrite (take_S_r _ _ _ Hx), flat_map_app. reflexivity.
Qed.

(* ===================================================================== *)
(** ** The whole procedure                                                *)
(* ===================================================================== *)

Lemma main_unfold fuel w :
  (3 <= fuel)%nat ->
  main fuel w
  = match print fuel [0; 1; 2] w with
    | Ret (_, w') => Ret (0, w')
    | Undefined f => Undefined f
    | Timeout => Timeout
    end.
Proof.
  intros Hf. unfold main, bind. rewrite build_run by exact Hf. simpl b_v.
  destruct (print fuel [0; 1; 2] w) as [[it w']| |]; reflexivity.
Qed.

Lemma main_run fuel w :
  normal w -> (3 <= fuel)%nat -> main fuel w = Ret (0, append_cout w main_trace).
Proof.
  intros Hn Hf. rewrite main_unfold by exact Hf. unfold print.
  rewrite (print_loop_from [0; 1; 2] 3) by (try assumption; simpl; lia).
  reflexivity.
Qed.

Lemma main_total fuel w :
  (3 <= fuel)%nat -> exists w', main fuel w = Ret (0, w') /\ cerr w' = cerr w.
Proof.
  intros Hf. rewrite main_unfold by exact Hf. unfold print.
  destruct (print_loop_total [0; 1; 2] 3 fuel (vbegin [0; 1; 2]) w)
    as (w' & Hl & Hc); [reflexivity | exact Hf |].
  exists w'. rewrite Hl. split; [reflexivity | exact Hc].
Qed.

Lemma main_short fuel w : (fuel < 3)%nat -> main fuel w = Timeout.
Proof.
  intros Hf. destruct fuel as [|[|[|fuel]]]; try lia; reflexivity.
Qed.

Lemma main_returns_zero fuel w r w' : main fuel w = Ret (r, w') -> r = 0.
Proof.
  unfold main, bind.
  destruct (build fuel w) as [[s w1]| |]; try discriminate.
  destruct (print fuel (b_v s) w1) as [[it w2]| |]; try discriminate.
  unfold ret. intros H. injection H as Hr _. symmetry. exact Hr.
Qed.

Lemma main_defined fuel w f : main fuel w <> Undefined f.
Proof.
  destruct (le_lt_dec 3 fuel) as [Hf|Hf].
  - destruct (main_total fuel w Hf) as (w' & Hm & _). rewrite Hm. discriminate.
  - rewrite main_short by exact Hf. discriminate.
Qed.

Lemma take_snoc_pos (v : vector_int) it :
  (0 < it <= length v)%nat -> exists l x, take it v = l ++ [x].
Proof.
  intros [Hpos Hle]. destruct it as [|k]; [lia|].
  destruct (lookup_lt_is_Some_2 v k) as [x Hx]; [lia|].
  exists (take k v), x. apply (take_S_r _ _ _ Hx).
Qed.

Lemma line_events_flushed l x :
  exists l', flat_map line_events (l ++ [x]) = l' ++ [Flush].
Proof.
  exists (flat_map line_events l ++ [Put (decimal x); Put newline]).
  rewrite flat_map_app, <- app_assoc. reflexivity.
Qed.

Lemma boundary_build_two :
  boundary build_cond build_body (build_init, fresh_world)
    (two_built, fresh_world).
Proof.
  eapply boundary_next with (s := mk_build 1 [0]) (w := fresh_world);
    [|reflexivity|reflexivity].
  eapply boundary_next with (s := build_init) (w := fresh_world);
    [|reflexivity|reflexivity].
  apply boundary_start.
Defined.

Lemma boundary_print_one :
  boundary (print_cond [0; 1; 2]) (print_body [0; 1; 2])
    (vbegin [0; 1; 2], fresh_world)
    (1%nat, append_cout fresh_world (line_events 0)).
Proof.
  eapply boundary_next with (s := 0%nat) (w := fresh_world);
    [|reflexivity|reflexivity].
  apply boundary_start.
Defined.

(* ===================================================================== *)
(** ** Properties of the program                                          *)
(* ===================================================================== *)

(** C1. With standard output writable, a run sends to it exactly the text
    of the three lines 0, 1, 2, each ended by a newline, and changes
    nothing else; and the print loop, over any vector, writes the elements
    from the first to the last in the order they were inserted. *)
Theorem main_prints_three_lines fuel w :
  normal w -> (3 <= fuel)%nat ->
  (exists tr, main fuel w = Ret (0, append_cout w tr) /\ bytes tr = main_text)
  /\ (forall v : vector_int, (length v <= fuel)%nat ->
        exists tr, print fuel v w = Ret (vend v, append_cout w tr)
                   /\ bytes tr = text_of v).
Proof.
  intros Hn Hf. split.
  - exists main_trace. split; [apply main_run; assumption | reflexivity].
  - intros v Hv. exists (flat_map line_events v). split.
    + unfold print, vbegin, vend.
      rewrite (print_loop_from v (length v)) by (try assumption; lia).
      reflexivity.
    + apply bytes_lines.
Qed.

Lemma main_prints_three_lines_witness :
  normal fresh_world /\ (3 <= 3)%nat
  /\ (exists tr, main 3 fresh_world = Ret (0, append_cout fresh_world tr)
                 /\ bytes tr = main_text).
Proof.
  split; [split; reflexivity|]. split; [lia|].
  apply (main_prints_three_lines 3 fresh_world); [split; reflexivity | lia].
Defined.

(** C2. When the build loop has run, the vector has length 3 and holds i at
    position i for i = 0, 1, 2; the loop stopped with its counter at the
    bound 3, which was not appended, and 0 is the first element. *)
Theorem build_postcondition fuel w :
  (3 <= fuel)%nat ->
  exists s, build fuel w = Ret (s, w)
    /\ length (b_v s) = 3%nat
    /\ (forall i, 0 <= i < 3 -> b_v s !! Z.to_nat i = Some i)
    /\ b_i s = 3
    /\ (3 ∉ b_v s)
    /\ b_v s !! 0%nat = Some 0.
Proof.
  intros Hf. exists (mk_build 3 [0; 1; 2]).
  split; [apply build_run, Hf|]. simpl. repeat split.
  - intros i Hi.
    assert (i = 0 \/ i = 1 \/ i = 2) as [->|[->| ->]] by lia; reflexivity.
  - intros Hin. apply list_elem_of_In in Hin. simpl in Hin.
    destruct Hin as [H|[H|[H|[]]]]; discriminate H.
Qed.

Lemma build_postcondition_witness :
  (3 <= 3)%nat
  /\ exists s, build 3 used_world = Ret (s, used_world)
       /\ length (b_v s) = 3%nat
       /\ (forall i, 0 <= i < 3 -> b_v s !! Z.to_nat i = Some i)
       /\ b_i s = 3
       /\ (3 ∉ b_v s)
       /\ b_v s !! 0%nat = Some 0.
Proof.
  split; [lia|]. apply (build_postcondition 3 used_world). lia.
Defined.

(** C3. With standard output writable, a run that completes hands exit
    status 0 to its caller, and no run hands back any other status. *)
Theorem exit_status_zero fuel p :
  normal (streams p) -> (3 <= fuel)%nat ->
  (exists w', run fuel p = Ret (0, w'))
  /\ (forall fuel' r w', run fuel' p = Ret (r, w') -> r = 0).
Proof.
  intros Hn Hf. split.
  - exists (append_cout (boot p) main_trace). apply main_run; assumption.
  - intros fuel' r w' Hr. exact (main_returns_zero _ _ _ _ Hr).
Qed.

Lemma exit_status_zero_witness :
  normal (streams busy_process) /\ (3 <= 5)%nat
  /\ (exists w', run 5 busy_process = Ret (0, w')).
Proof.
  split; [split; reflexivity|]. split; [lia|].
  apply (exit_status_zero 5 busy_process); [split; reflexivity | lia].
Defined.

(** C4. Runs under normal conditions are deterministic: any two of them
    return the same status and send the same events to standard output,
    whatever the streams held before; in particular a second run right
    after a first repeats its output, and equal conditions give equal
    outcomes. *)
Theorem main_deterministic fuel1 fuel2 w1 w2 :
  normal w1 -> normal w2 -> (3 <= fuel1)%nat -> (3 <= fuel2)%nat ->
  exists r tr,
    main fuel1 w1 = Ret (r, append_cout w1 tr)
    /\ main fuel2 w2 = Ret (r, append_cout w2 tr)
    /\ main fuel2 (append_cout w1 tr)
       = Ret (r, append_cout (append_cout w1 tr) tr)
    /\ main fuel1 w1 = main fuel2 w1.
Proof.
  intros Hn1 Hn2 Hf1 Hf2. exists 0, main_trace.
  rewrite !main_run by (try apply append_cout_normal; assumption).
  repeat split.
Qed.

Lemma main_deterministic_witness :
  normal fresh_world /\ normal used_world /\ (3 <= 3)%nat /\ (3 <= 4)%nat
  /\ exists r tr,
       main 3 fresh_world = Ret (r, append_cout fresh_world tr)
       /\ main 4 used_world = Ret (r, append_cout used_world tr)
       /\ main 4 (append_cout fresh_world tr)
          = Ret (r, append_cout (append_cout fresh_world tr) tr)
       /\ main 3 fresh_world = main 4 fresh_world.
Proof.
  split; [split; reflexivity|]. split; [split; reflexivity|].
  split; [lia|]. split; [lia|].
  apply (main_deterministic 3 4 fresh_world used_world);
    [split; reflexivity | split; reflexivity | lia | lia].
Defined.

Lemma env_blind_ret {A : Type} (a : A) : env_blind (ret a).
Proof. intros w av ev. reflexivity. Qed.

Lemma env_blind_undefined {A : Type} (f : fault) : env_blind (@undefined A f).
Proof. intros w av ev. reflexivity. Qed.

Lemma env_blind_bind {A B : Type} (m : M A) (k : A -> M B) :
  env_blind m -> (forall a, env_blind (k a)) -> env_blind (bind m k).
Proof.
  intros Hm Hk w av ev. unfold bind. rewrite Hm.
  destruct (m w) as [[a w1]| |]; simpl; [apply Hk | reflexivity | reflexivity].
Qed.

Lemma env_blind_loop {S : Type} (cond : S -> bool) (body : S -> M S) :
  (forall s, env_blind (body s)) ->
  forall fuel s, env_blind (loop fuel cond body s).
Proof.
  intros Hb. induction fuel as [|fuel IH]; intros s w av ev; simpl;
    destruct (cond s); try reflexivity.
  rewrite Hb. destruct (body s w) as [[s1 w1]| |]; simpl;
    [apply IH | reflexivity | reflexivity].
Qed.

Lemma env_blind_cout_int n : env_blind (cout_int n).
Proof. intros w av ev. reflexivity. Qed.

Lemma env_blind_cout_endl : env_blind cout_endl.
Proof. intros w av ev. reflexivity. Qed.

Lemma env_blind_deref (v : vector_int) it : env_blind (deref v it).
Proof.
  unfold deref. destruct (v !! it);
    [apply env_blind_ret | apply env_blind_undefined].
Qed.

Lemma env_blind_post_incr i : env_blind (post_incr i).
Proof.
  unfold post_incr. destruct (i <? INT_MAX);
    [apply env_blind_ret | apply env_blind_undefined].
Qed.

Lemma env_blind_build_body s : env_blind (build_body s).
Proof.
  unfold build_body. apply env_blind_bind; [apply env_blind_post_incr|].
  intros i'. apply env_blind_ret.
Qed.

Lemma env_blind_print_body (v : vector_int) it : env_blind (print_body v it).
Proof.
  unfold print_body. apply env_blind_bind; [apply env_blind_deref|].
  intros i. apply env_blind_bind; [apply env_blind_cout_int|].
  intros _. apply env_blind_bind; [apply env_blind_cout_endl|].
  intros _. apply env_blind_ret.
Qed.

Lemma env_blind_main fuel : env_blind (main fuel).
Proof.
  unfold main, build, print. apply env_blind_bind.
  - apply env_blind_loop. exact env_blind_build_body.
  - intros s. apply env_blind_bind.
    + apply env_blind_loop. exact (env_blind_print_body (b_v s)).
    + intros _. apply env_blind_ret.
Qed.

Lemma observable_restart o av ev :
  observable (omap (fun x => (fst x, restart (snd x) av ev)) o) = observable o.
Proof. destruct o as [[r w]| |]; reflexivity. Qed.

Lemma restart_same w : restart w (w_argv w) (w_environ w) = w.
Proof. destruct w. reflexivity. Qed.

(** C5. Arguments and environment are not consumed: they lie within reach
    of the program, yet two processes that differ only in them show their
    callers the same exit status and the same streams, and each run leaves
    its arguments and environment as it found them. *)
Theorem args_env_not_consumed fuel p1 p2 :
  cout (streams p1) = cout (streams p2) ->
  cerr (streams p1) = cerr (streams p2) ->
  observable (run fuel p1) = observable (run fuel p2)
  /\ (forall r w', run fuel p1 = Ret (r, w') ->
        w_argv w' = argv p1 /\ w_environ w' = environ p1).
Proof.
  intros Hout Herr. unfold run. split.
  - replace (boot p2) with (restart (boot p1) (argv p2) (environ p2))
      by (unfold restart, boot; simpl; rewrite Hout, Herr; reflexivity).
    rewrite env_blind_main, observable_restart. reflexivity.
  - intros r w' Hr.
    pose proof (env_blind_main fuel (boot p1) (argv p1) (environ p1)) as Hb.
    change (restart (boot p1) (argv p1) (environ p1)) with (boot p1) in Hb.
    rewrite Hr in Hb. simpl in Hb. injection Hb as Hw.
    rewrite Hw. split; reflexivity.
Qed.

Lemma args_env_not_consumed_witness :
  cout (streams bare_process) = cout (streams busy_process)
  /\ cerr (streams bare_process) = cerr (streams busy_process)
  /\ argv bare_process <> argv busy_process
  /\ environ bare_process <> environ busy_process
  /\ observable (run 3 bare_process) = observable (run 3 busy_process).
Proof.
  split; [reflexivity|]. split; [reflexivity|].
  split; [discriminate|]. split; [discriminate|].
  apply (args_env_not_consumed 3 bare_process busy_process); reflexivity.
Defined.

(** C6. Under normal operation a run writes to standard output only: the
    error stream is the same after the run as before it, and the same at
    every point between iterations of either loop. *)
Theorem only_stdout_written fuel w :
  normal w -> (3 <= fuel)%nat ->
  exists s w',
    build fuel w = Ret (s, w)
    /\ main fuel w = Ret (0, w')
    /\ cerr w' = cerr w
    /\ (forall s1 w1,
          boundary build_cond build_body (build_init, w) (s1, w1) -> w1 = w)
    /\ (forall it w1,
          boundary (print_cond (b_v s)) (print_body (b_v s))
            (vbegin (b_v s), w) (it, w1) ->
          cerr w1 = cerr w).
Proof.
  intros Hn Hf. exists (mk_build 3 [0; 1; 2]), (append_cout w main_trace).
  split; [apply build_run, Hf|].
  split; [apply main_run; assumption|].
  split; [reflexivity|]. split.
  - intros s1 w1 Hbd. apply (build_boundary_invariant _ _ _ Hbd).
  - intros it w1 Hbd.
    apply (print_boundary_invariant _ _ _ _ Hbd).
Qed.

Lemma only_stdout_written_witness :
  normal used_world /\ (3 <= 3)%nat
  /\ exists s w',
       build 3 used_world = Ret (s, used_world)
       /\ main 3 used_world = Ret (0, w')
       /\ cerr w' = cerr used_world
       /\ (forall s1 w1,
             boundary build_cond build_body (build_init, used_world) (s1, w1) ->
             w1 = used_world)
       /\ (forall it w1,
             boundary (print_cond (b_v s)) (print_body (b_v s))
               (vbegin (b_v s), used_world) (it, w1) ->
             cerr w1 = cerr used_world).
Proof.
  split; [split; reflexivity|]. split; [lia|].
  apply (only_stdout_written 3 used_world); [split; reflexivity | lia].
Defined.

(** C7. Every run terminates, whatever the state of the streams: the build
    loop needs three iterations, the print loop as many as the vector has
    elements, and with both done [main] returns the success status 0. *)
Theorem main_terminates fuel p :
  (3 <= fuel)%nat ->
  (exists w', run fuel p = Ret (0, w'))
  /\ (exists s, build 3 (streams p) = Ret (s, streams p))
  /\ (forall v : vector_int,
        exists w', print (length v) v (streams p) = Ret (vend v, w')).
Proof.
  intros Hf. split; [|split].
  - destruct (main_total fuel (boot p) Hf) as (w' & Hm & _).
    exists w'. exact Hm.
  - exists (mk_build 3 [0; 1; 2]). apply build_run. lia.
  - intros v.
    destruct (print_loop_total v (length v) (length v) (vbegin v) (streams p))
      as (w' & Hl & _); [reflexivity | lia |].
    exists w'. exact Hl.
Qed.

Lemma main_terminates_witness :
  (3 <= 3)%nat /\ exists w', run 3 bare_process = Ret (0, w').
Proof.
  split; [lia|]. apply (main_terminates 3 bare_process). lia.
Defined.

(** C8. Between iterations of the build loop the vector's length equals the
    counter i, position j holds j for every j below i, and i lies between 0
    and 3; an iteration that runs raises the counter by exactly 1. *)
Theorem build_loop_invariant w s w' :
  boundary build_cond build_body (build_init, w) (s, w') ->
  length (b_v s) = Z.to_nat (b_i s)
  /\ (forall j : nat, (j < Z.to_nat (b_i s))%nat -> b_v s !! j = Some (Z.of_nat j))
  /\ 0 <= b_i s <= 3
  /\ (build_cond s = true ->
      exists s', build_body s w' = Ret (s', w') /\ b_i s' = b_i s + 1).
Proof.
  intros Hbd. destruct (build_boundary_invariant _ _ _ Hbd) as [Hinv ->].
  destruct Hinv as (Hr & Hlen & Hel).
  split; [exact Hlen|]. split; [exact Hel|]. split; [exact Hr|].
  intros Hc. exists (mk_build (b_i s + 1) (push_back (b_v s) (b_i s))).
  split; [|reflexivity]. apply build_body_step. unfold INT_MAX. lia.
Qed.

Lemma build_loop_invariant_witness :
  length (b_v two_built) = Z.to_nat (b_i two_built)
  /\ (forall j : nat, (j < Z.to_nat (b_i two_built))%nat ->
        b_v two_built !! j = Some (Z.of_nat j))
  /\ 0 <= b_i two_built <= 3
  /\ (build_cond two_built = true ->
      exists s', build_body two_built fresh_world = Ret (s', fresh_world)
                 /\ b_i s' = b_i two_built + 1).
Proof.
  apply (build_loop_invariant fresh_world two_built fresh_world).
  exact boundary_build_two.
Defined.

(** C9. Every read of the vector is in bounds: whenever the print loop is
    about to run its body the iterator points at a stored element, so the
    dereference succeeds, and no run of [main] ends in a fault. *)
Theorem print_accesses_in_bounds (v : vector_int) w it w' :
  boundary (print_cond v) (print_body v) (vbegin v, w) (it, w') ->
  print_cond v it = true ->
  (it < length v)%nat
  /\ (exists x, v !! it = Some x /\ deref v it w' = Ret (x, w'))
  /\ (forall fuel w0 f, main fuel w0 <> Undefined f).
Proof.
  intros Hbd Hc. destruct (print_boundary_invariant _ _ _ _ Hbd) as (Hle & _).
  apply print_cond_true in Hc. assert (Hlt : (it < length v)%nat) by lia.
  split; [exact Hlt|]. split.
  - destruct (lookup_lt_is_Some_2 v it Hlt) as [x Hx]. exists x.
    split; [exact Hx|]. unfold deref. rewrite Hx. reflexivity.
  - intros fuel w0 f. apply main_defined.
Qed.

Lemma print_accesses_in_bounds_witness :
  (1 < length [0; 1; 2])%nat
  /\ (exists x, [0; 1; 2] !! 1%nat = Some x
                /\ deref [0; 1; 2] 1 (append_cout fresh_world (line_events 0))
                   = Ret (x, append_cout fresh_world (line_events 0)))
  /\ (forall fuel w0 f, main fuel w0 <> Undefined f).
Proof.
  apply (print_accesses_in_bounds [0; 1; 2] fresh_world 1%nat
           (append_cout fresh_world (line_events 0)));
    [exact boundary_print_one | reflexivity].
Defined.

(** C10. Each element's text is followed by a newline and a flush before the
    next element is written: the events of a run are text, newline, flush,
    three times over, and between iterations of the print loop nothing
    written so far is still waiting for a flush. *)
Theorem each_line_flushed fuel w :
  normal w -> (3 <= fuel)%nat ->
  main fuel w
  = Ret (0, append_cout w
              [Put (decimal 0); Put newline; Flush;
               Put (decimal 1); Put newline; Flush;
               Put (decimal 2); Put newline; Flush])
  /\ (forall (v : vector_int) it w',
        boundary (print_cond v) (print_body v) (vbegin v, w) (it, w') ->
        (0 < it)%nat ->
        pending (log (cout w')) = EmptyString
        /\ exists l, log (cout w') = l ++ [Flush]).
Proof.
  intros Hn Hf. split; [apply main_run; assumption|].
  intros v it w' Hbd Hpos.
  destruct (print_boundary_invariant _ _ _ _ Hbd) as (Hle & _ & Hout).
  rewrite (Hout Hn). simpl.
  destruct (take_snoc_pos v it) as (l & x & ->); [lia|].
  destruct (line_events_flushed l x) as [l' ->].
  rewrite app_assoc. split; [apply pending_snoc_flush|].
  exists (log (cout w) ++ l'). reflexivity.
Qed.

Lemma each_line_flushed_witness :
  normal used_world /\ (3 <= 3)%nat
  /\ main 3 used_world
     = Ret (0, append_cout used_world
                 [Put (decimal 0); Put newline; Flush;
                  Put (decimal 1); Put newline; Flush;
                  Put (decimal 2); Put newline; Flush]).
Proof.
  split; [split; reflexivity|]. split; [lia|].
  apply (each_line_flushed 3 used_world); [split; reflexivity | lia].
Defined.

(* ===================================================================== *)
(** ** Further properties of the two loops                                *)
(* ===================================================================== *)

(** With too little fuel the print loop is still running when the fuel is
    gone, whatever the streams do. *)
Lemma print_loop_short (v : vector_int) : forall fuel it w,
  (fuel + it < length v)%nat ->
  loop fuel (print_cond v) (print_body v) it w = Timeout.
Proof.
  induction fuel as [|fuel IH]; intros it w Hlt; simpl.
  - replace (print_cond v it) with true
      by (symmetry; apply print_cond_true; lia).
    reflexivity.
  - replace (print_cond v it) with true
      by (symmetry; apply print_cond_true; lia).
    destruct (lookup_lt_is_Some_2 v it) as [x Hx]; [lia|].
    rewrite (print_body_at _ _ _ _ Hx). apply IH. lia.
Qed.

Lemma build_short fuel w : (fuel < 3)%nat -> build fuel w = Timeout.
Proof.
  intros Hf. destruct fuel as [|[|[|fuel]]]; try lia; reflexivity.
Qed.

Lemma string_app_nil_inv (a b : string) :
  (a ++ b)%string = EmptyString -> a = EmptyString /\ b = EmptyString.
Proof. destruct a; simpl; [auto | discriminate]. Qed.

(** Two texts without line breaks, each followed by a line break and a
    rest, agree only if they and their rests agree. *)
Lemma line_split_unique : forall s1 s2 r1 r2 : string,
  no_newline s1 = true -> no_newline s2 = true ->
  (s1 ++ newline ++ r1)%string = (s2 ++ newline ++ r2)%string ->
  s1 = s2 /\ r1 = r2.
Proof.
  induction s1 as [|c1 s1 IH]; intros [|c2 s2] r1 r2 H1 H2 Heq; simpl in *.
  - injection Heq as Hr. auto.
  - injection Heq as Hc _. subst c2.
    rewrite Ascii.eqb_refl in H2. discriminate H2.
  - injection Heq as Hc _. subst c1.
    rewrite Ascii.eqb_refl in H1. discriminate H1.
  - injection Heq as Hc Hrest. subst c2.
    apply andb_prop in H1 as [_ H1]. apply andb_prop in H2 as [_ H2].
    destruct (IH _ _ _ H1 H2 Hrest) as [-> ->]. auto.
Qed.

Lemma uint_text_no_newline (d : Decimal.uint) :
  no_newline (NilEmpty.string_of_uint d) = true.
Proof. induction d; simpl; auto. Qed.

Lemma decimal_no_newline n : no_newline (decimal n) = true.
Proof.
  unfold decimal. destruct (Z.to_int n) as [d|d]; simpl.
  - destruct d; try reflexivity; apply (uint_text_no_newline (_ d)).
  - destruct d; try reflexivity; apply (uint_text_no_newline (_ d)).
Qed.

Lemma to_int_nonnil n :
  Z.to_int n <> Decimal.Pos Decimal.Nil /\ Z.to_int n <> Decimal.Neg Decimal.Nil.
Proof.
  destruct n as [|p|p]; simpl; split; try discriminate;
    intros H; injection H as H; exact (DecimalPos.Unsigned.to_uint_nonnil p H).
Qed.

(** The text of a number determines the number. *)
Lemma decimal_inj x y : decimal x = decimal y -> x = y.
Proof.
  unfold decimal. intros H. apply DecimalZ.to_int_inj.
  destruct (to_int_nonnil x) as [Hx1 Hx2].
  destruct (to_int_nonnil y) as [Hy1 Hy2].
  pose proof (NilZero.isi _ Hx1 Hx2) as Ix.
  pose proof (NilZero.isi _ Hy1 Hy2) as Iy.
  rewrite H in Ix. rewrite Ix in Iy. injection Iy as Iy. exact Iy.
Qed.

Lemma text_of_inj : forall v1 v2 : vector_int, text_of v1 = text_of v2 -> v1 = v2.
Proof.
  induction v1 as [|x1 v1 IH]; intros [|x2 v2] H; simpl in H.
  - reflexivity.
  - symmetry in H. apply string_app_nil_inv in H as [_ H]. discriminate H.
  - apply string_app_nil_inv in H as [_ H]. discriminate H.
  - apply line_split_unique in H as [Hd Ht]; try apply decimal_no_newline.
    apply decimal_inj in Hd. apply IH in Ht. congruence.
Qed.

Lemma os_emit_refused os e :
  writable os = false \/ badbit os = true ->
  log (os_emit os e) = log os
  /\ writable (os_emit os e) = writable os
  /\ badbit (os_emit os e) = true.
Proof.
  destruct os as [wr bad lg]. unfold os_emit. simpl.
  intros [H|H]; subst; [destruct bad|]; simpl; auto.
Qed.

Lemma line_refused os x :
  writable os = false \/ badbit os = true ->
  log (endl (insert_int os x)) = log os
  /\ writable (endl (insert_int os x)) = writable os
  /\ badbit (endl (insert_int os x)) = true.
Proof.
  intros H. unfold endl, insert_int, os_write, os_flush.
  destruct (os_emit_refused os (Put (decimal x)) H) as (L1 & W1 & B1).
  destruct (os_emit_refused _ (Put newline) (or_intror B1)) as (L2 & W2 & B2).
  destruct (os_emit_refused _ Flush (or_intror B2)) as (L3 & W3 & B3).
  repeat split; congruence.
Qed.

Lemma print_loop_refused (v : vector_int) : forall n fuel it w,
  refusing w -> (it + n)%nat = length v -> (n <= fuel)%nat ->
  exists w', loop fuel (print_cond v) (print_body v) it w = Ret (length v, w')
    /\ log (cout w') = log (cout w)
    /\ writable (cout w') = writable (cout w)
    /\ ((0 < n)%nat -> badbit (cout w') = true)
    /\ cerr w' = cerr w.
Proof.
  induction n as [|n IH]; intros fuel it w Hr Hit Hf.
  - exists w. rewrite loop_done by (apply print_cond_false; lia).
    repeat split; try lia. do 2 f_equal. lia.
  - destruct fuel as [|fuel]; [lia|].
    destruct (lookup_lt_is_Some_2 v it) as [x Hx]; [lia|].
    erewrite loop_iter;
      [| apply print_cond_true; lia | apply (print_body_at _ _ _ _ Hx)].
    destruct (line_refused (cout w) x Hr) as (L & W & B).
    destruct (IH fuel (Datatypes.S it)
                (mk_world (endl (insert_int (cout w) x)) (cerr w)
                   (w_argv w) (w_environ w)))
      as (w' & Hl & L' & W' & B' & C'); [right; exact B | lia | lia |].
    simpl in L', W', C'. exists w'. split; [exact Hl|].
    split; [congruence|]. split; [congruence|]. split; [|exact C'].
    intros _. destruct n as [|n]; [|apply B'; lia].
    rewrite loop_done in Hl by (apply print_cond_false; lia).
    injection Hl as _ <-. exact B.
Qed.

(** X1. In a normal run the print loop writes whole lines in order: between
    iterations standard output has received exactly the lines of the
    elements before the iterator, nothing of the later ones, and the stream
    is still in good state. *)
Theorem print_progress (v : vector_int) w it w' :
  normal w ->
  boundary (print_cond v) (print_body v) (vbegin v, w) (it, w') ->
  (it <= length v)%nat
  /\ bytes (log (cout w')) = (bytes (log (cout w)) ++ text_of (take it v))%string
  /\ log (cout w') = log (cout w) ++ flat_map line_events (take it v)
  /\ normal w'.
Proof.
  intros Hn Hbd.
  destruct (print_boundary_invariant _ _ _ _ Hbd) as (Hle & _ & Hout).
  rewrite (Hout Hn). simpl. split; [exact Hle|].
  split; [rewrite bytes_app, bytes_lines; reflexivity|].
  split; [reflexivity | exact Hn].
Qed.

Lemma print_progress_witness :
  normal fresh_world
  /\ bytes (log (cout (append_cout fresh_world (line_events 0))))
     = (bytes (log (cout fresh_world)) ++ text_of (take 1 [0; 1; 2]))%string.
Proof.
  split; [split; reflexivity|].
  apply (print_progress [0; 1; 2] fresh_world 1%nat
           (append_cout fresh_world (line_events 0)));
    [split; reflexivity | exact boundary_print_one].
Defined.

(** X2. The loops run once per element and never fault: over any vector and
    any streams the print loop finishes exactly when it is given at least as
    many iterations as the vector has elements and is cut short otherwise;
    the build loop and [main] need exactly three. *)
Theorem loops_run_once_per_element fuel (v : vector_int) w :
  (print fuel v w = Timeout <-> (fuel < length v)%nat)
  /\ ((exists w', print fuel v w = Ret (vend v, w')) <-> (length v <= fuel)%nat)
  /\ (forall f, print fuel v w <> Undefined f)
  /\ (build fuel w = Timeout <-> (fuel < 3)%nat)
  /\ (main fuel w = Timeout <-> (fuel < 3)%nat).
Proof.
  assert (Hlong : (length v <= fuel)%nat ->
                  exists w', print fuel v w = Ret (vend v, w')).
  { intros Hf.
    destruct (print_loop_total v (length v) fuel (vbegin v) w)
      as (w' & Hl & _); [reflexivity | exact Hf |].
    exists w'. exact Hl. }
  assert (Hshort : (fuel < length v)%nat -> print fuel v w = Timeout).
  { intros Hf. apply print_loop_short. unfold vbegin. lia. }
  split; [|split; [|split; [|split]]].
  - split; [|exact Hshort]. intros Ht.
    destruct (le_lt_dec (length v) fuel) as [Hf|Hf]; [|exact Hf].
    destruct (Hlong Hf) as [w' Hw]. congruence.
  - split; [|exact Hlong]. intros [w' Hw].
    destruct (le_lt_dec (length v) fuel) as [Hf|Hf]; [exact Hf|].
    rewrite (Hshort Hf) in Hw. discriminate Hw.
  - intros f. destruct (le_lt_dec (length v) fuel) as [Hf|Hf].
    + destruct (Hlong Hf) as [w' ->]. discriminate.
    + rewrite (Hshort Hf). discriminate.
  - split; [|apply build_short]. intros Ht.
    destruct (le_lt_dec 3 fuel) as [Hf|Hf]; [|exact Hf].
    rewrite build_run in Ht by exact Hf. discriminate Ht.
  - split; [|apply main_short]. intros Ht.
    destruct (le_lt_dec 3 fuel) as [Hf|Hf]; [|exact Hf].
    destruct (main_total fuel w Hf) as (w' & Hm & _). congruence.
Qed.

(** X3. When standard output takes nothing, the run is silent about it:
    [main] still returns 0, nothing is added to standard output, the stream
    is left in its error state, and the error stream is untouched. *)
Theorem refused_output_is_silent fuel w :
  refusing w -> (3 <= fuel)%nat ->
  exists w', main fuel w = Ret (0, w')
    /\ log (cout w') = log (cout w)
    /\ badbit (cout w') = true
    /\ writable (cout w') = writable (cout w)
    /\ cerr w' = cerr w.
Proof.
  intros Hr Hf. rewrite main_unfold by exact Hf. unfold print.
  destruct (print_loop_refused [0; 1; 2] 3 fuel (vbegin [0; 1; 2]) w)
    as (w' & Hl & L & W & B & C); [exact Hr | reflexivity | exact Hf |].
  exists w'. rewrite Hl. split; [reflexivity|]. split; [exact L|].
  split; [apply B; lia|]. split; [exact W | exact C].
Qed.

Lemma refused_output_is_silent_witness :
  refusing closed_world /\ (3 <= 3)%nat
  /\ exists w', main 3 closed_world = Ret (0, w')
       /\ log (cout w') = log (cout closed_world)
       /\ badbit (cout w') = true
       /\ writable (cout w') = writable (cout closed_world)
       /\ cerr w' = cerr closed_world.
Proof.
  split; [left; reflexivity|]. split; [lia|].
  apply (refused_output_is_silent 3 closed_world); [left; reflexivity | lia].
Defined.

(** X4. The printed text determines the vector: if, from the same normal
    streams, printing two vectors sends the same characters to standard
    output, the vectors are equal. *)
Theorem printed_text_determines_vector fuel (v1 v2 : vector_int) w it1 it2 tr1 tr2 :
  normal w ->
  print fuel v1 w = Ret (it1, append_cout w tr1) ->
  print fuel v2 w = Ret (it2, append_cout w tr2) ->
  bytes tr1 = bytes tr2 ->
  v1 = v2.
Proof.
  assert (Htrace : forall (v : vector_int) it tr,
             normal w -> print fuel v w = Ret (it, append_cout w tr) ->
             bytes tr = text_of v).
  { intros v it tr Hn Hp.
    destruct (le_lt_dec (length v) fuel) as [Hf|Hf].
    - unfold print, vbegin in Hp.
      rewrite (print_loop_from v (length v)) in Hp by (try assumption; lia).
      injection Hp as _ Hlog. apply app_inv_head in Hlog.
      rewrite <- Hlog. apply bytes_lines.
    - unfold print in Hp. rewrite print_loop_short in Hp
        by (unfold vbegin; lia). discriminate Hp. }
  intros Hn H1 H2 Hb. apply text_of_inj.
  rewrite <- (Htrace _ _ _ Hn H1), <- (Htrace _ _ _ Hn H2). exact Hb.
Qed.

Lemma printed_text_determines_vector_witness :
  normal fresh_world
  /\ print 3 sample_vector fresh_world
     = Ret (3%nat, append_cout fresh_world (flat_map line_events sample_vector))
  /\ sample_vector = sample_vector.
Proof.
  split; [split; reflexivity|]. split; [reflexivity|].
  apply (printed_text_determines_vector 3 sample_vector sample_vector fresh_world
           3%nat 3%nat (flat_map line_events sample_vector)
           (flat_map line_events sample_vector));
    [split; reflexivity | reflexivity | reflexivity | reflexivity].
Defined.
